(** * Collider: the WebSocket and HTTP handlers of the signaling server

    A shallow embedding of [collider.go]: [wsHandler], the per-connection
    dispatch loop, and [httpHandler], the administrative POST/DELETE
    surface.  Both handlers are sequential code whose observable behaviour
    is the sequence of calls they make on their collaborators (the room
    table, the dashboard, the WebSocket connection, the HTTP response
    writer).  A handler is therefore embedded as a function that returns
    the trace of those calls; what a collaborator answers (the error of
    [roomTable.register], the content of [registered_clients] when it is
    read, ...) comes with the input, so that every statement below holds
    for every behaviour of the room table and for every interleaving with
    other connections. *)

From Stdlib Require Import String Ascii List Bool.
From stdpp Require Import base option gmap strings list.
Import ListNotations.

Local Open Scope string_scope.
Local Open Scope list_scope.

(** ** Data *)

(** A [*websocket.Conn]: only the identity of the connection matters. *)
Definition conn := nat.

(** The decoded client message.  The handlers read the five fields below
    ([msg.Cmd], [msg.RoomID], [msg.ClientID], [msg.Msg], [msg.To]) and
    compare each of them with string constants. *)
Record wsClientMsg := mkMsg {
  Cmd : string;
  RoomID : string;
  ClientID : string;
  Msg : string;
  To : string
}.

(** A registered client, as kept in [registered_clients]; the handlers use
    its connection [rwc] and call its method [sendByID]. *)
Record client := mkClient {
  client_id : string;
  rwc : conn
}.

(** An [error] value is its message; [None] is [nil]. *)
Definition error := option string.

(** ** Calls on the collaborators

    One constructor per call the handlers make, with the arguments passed
    and, where the handler receives one, the result.  Console logging
    ([fmt.Println], [log.Printf]) is not recorded. *)
Inductive call :=
| Register (rid cid : string) (ws : conn) (res : error)
      (* c.roomTable.register(rid, cid, ws) *)
| Deregister (rid cid : string)
      (* c.roomTable.deregister(rid, cid) *)
| Send (rid cid kind msg : string) (res : error)
      (* c.roomTable.send(rid, cid, kind, msg) *)
| SendByID (from : client) (to kind msg : string) (res : error)
      (* from.sendByID(to, kind, msg) *)
| Remove (rid cid : string)
      (* c.roomTable.remove(rid, cid) *)
| RemoveRoom (rid : string)
      (* c.roomTable.removeRoom(rid) *)
| SendServerErr (ws : conn) (msg : string)
      (* sendServerErr(ws, msg) *)
| IncrWs
      (* c.dash.incrWs() *)
| OnWsErr (msg : string)
      (* c.dash.onWsErr(errors.New(msg)) *)
| OnHttpErr (msg : string)
      (* c.dash.onHttpErr(errors.New(msg)) *)
| WsClose (ws : conn)
      (* ws.Close() *)
| HeaderAdd (key value : string)
      (* w.Header().Add(key, value) *)
| HttpError (msg : string) (status : nat)
      (* http.Error(w, msg, status) *)
| WriteString (body : string).
      (* io.WriteString(w, body) *)

Definition trace := list call.

(** [wsError]: report the error to the connection and count it. *)
Definition wsError (msg : string) (ws : conn) : trace :=
  [SendServerErr ws msg; OnWsErr msg].

(** [httpError]: reply 500 and count the error. *)
Definition StatusInternalServerError : nat := 500.

Definition httpError (msg : string) : trace :=
  [HttpError msg StatusInternalServerError; OnHttpErr msg].

(** ** wsHandler *)

(** What the collaborators answer during one turn of the loop.  At most one
    of the three calls is made in a turn, and [registered_clients] is read
    at most once (right after a successful [register]). *)
Record answers := mkAnswers {
  register_result : error;
  registered_clients : gmap string client;
  send_result : error;
  sendByID_result : error
}.

(** One turn of the loop starts with [ws.SetReadDeadline] and
    [websocket.JSON.Receive]; either can fail with an error [e].  Otherwise
    [Received m a]: [m] is the content of the variable [msg] once [Receive]
    has decoded into it (the variable is declared outside the loop and
    decoded into on every turn), and [a] is what the collaborators answer
    during the turn. *)
Inductive inbound :=
| DeadlineFails (e : string)
| ReceiveFails (e : string)
| Received (m : wsClientMsg) (a : answers).

(** The local variables of [wsHandler] that live across turns, and the
    stack of deferred calls (most recent first). *)
Record locals := mkLocals {
  rid : string;
  cid : string;
  thisClient : option client;
  registered : bool;
  deferred : trace
}.

Definition initial : locals :=
  {| rid := ""; cid := ""; thisClient := None; registered := false;
     deferred := [] |}.

(** How a turn ends: at the bottom of the loop body or through [continue]
    (both start the next turn), or through a [break] that leaves the loop.
    A plain [break] inside the [switch] only leaves the [switch]. *)
Inductive control := NextTurn | LeaveLoop.

(** The three ancillary cases share their code up to the kind string. *)
Definition ancillary (kind : string) (ws : conn) (l : locals)
    (m : wsClientMsg) (a : answers) : locals * trace * control :=
  match thisClient l with
  | None => (l, [], NextTurn)
  | Some this =>
      if negb (Msg m =? "") && negb (To m =? "") then
        match sendByID_result a with
        | None => (l, [SendByID this (To m) kind (Msg m) None], NextTurn)
        | Some e =>
            (l, [SendByID this (To m) kind (Msg m) (Some e);
                 SendServerErr ws e], NextTurn)
        end
      else (l, [], NextTurn)
  end.

(** The [switch msg.Cmd] of the loop body. *)
Definition dispatch (ws : conn) (l : locals) (m : wsClientMsg) (a : answers)
    : locals * trace * control :=
  if Cmd m =? "register" then
    if registered l then
      (l, wsError "Duplicated register request" ws, NextTurn)
    else if (RoomID m =? "") || (ClientID m =? "") then
      (l, wsError "Invalid register request: missing 'clientid' or 'roomid'" ws,
       LeaveLoop)
    else
      match register_result a with
      | Some e =>
          (l, Register (RoomID m) (ClientID m) ws (Some e) :: wsError e ws,
           LeaveLoop)
      | None =>
          ({| rid := RoomID m; cid := ClientID m;
              thisClient := registered_clients a !! ClientID m;
              registered := true;
              deferred := Deregister (RoomID m) (ClientID m) :: deferred l |},
           [Register (RoomID m) (ClientID m) ws None; IncrWs], NextTurn)
      end
  else if Cmd m =? "send" then
    match thisClient l with
    | None => (l, [], NextTurn)
    | Some _ =>
        if negb (registered l) then
          (l, wsError "Client not registered" ws, LeaveLoop)
        else if Msg m =? "" then
          (l, wsError "Invalid send request: missing 'msg'" ws, LeaveLoop)
        else
          (l, [Send (rid l) (cid l) "send" (Msg m) (send_result a)], NextTurn)
    end
  else if Cmd m =? "video_chat" then ancillary "video_chat" ws l m a
  else if Cmd m =? "audio_chat" then ancillary "audio_chat" ws l m a
  else if Cmd m =? "chat" then ancillary "chat" ws l m a
  else if Cmd m =? "leave" then
    (l, [Deregister (rid l) (cid l)], NextTurn)
  else
    (l, wsError "Invalid message: unexpected 'cmd'" ws, NextTurn).

(** One turn of the [for] loop. *)
Definition turn (ws : conn) (l : locals) (i : inbound)
    : locals * trace * control :=
  match i with
  | DeadlineFails e =>
      (l, wsError ("ws.SetReadDeadline error: " ++ e) ws, LeaveLoop)
  | ReceiveFails e =>
      if e =? "EOF" then (l, [], LeaveLoop)
      else (l, wsError ("websocket.JSON.Receive error: " ++ e) ws, LeaveLoop)
  | Received m a => dispatch ws l m a
  end.

(** The loop over what arrives on the connection.  [Exited l t]: the loop was
    left with locals [l] after the calls [t].  [Waiting l t]: everything
    that arrived has been handled and the loop sits in the next
    [Receive]. *)
Inductive loop_result :=
| Exited (l : locals) (t : trace)
| Waiting (l : locals) (t : trace).

(** The calls of earlier turns come before those of the rest of the loop. *)
Definition after (t : trace) (r : loop_result) : loop_result :=
  match r with
  | Exited l t' => Exited l (t ++ t')
  | Waiting l t' => Waiting l (t ++ t')
  end.

Fixpoint loop (ws : conn) (l : locals) (ins : list inbound) : loop_result :=
  match ins with
  | [] => Waiting l []
  | i :: rest =>
      match turn ws l i with
      | (l', t, LeaveLoop) => Exited l' t
      | (l', t, NextTurn) => after t (loop ws l' rest)
      end
  end.

(** [wsHandler]: run the loop; once it is left, close the connection and
    then run the deferred calls, last deferred first.  [Some t]: the
    handler returned after the calls [t]; [None]: it has not returned (it
    waits for the next message). *)
Definition wsHandler (ws : conn) (ins : list inbound) : option trace :=
  match loop ws initial ins with
  | Exited l t => Some (t ++ WsClose ws :: deferred l)
  | Waiting _ _ => None
  end.

(** The trace and the locals of a loop result. *)
Definition calls (r : loop_result) : trace :=
  match r with Exited _ t | Waiting _ t => t end.

Definition locals_of (r : loop_result) : locals :=
  match r with Exited l _ | Waiting l _ => l end.

(** *** States of a connection

    [Unregistered]: no registration has succeeded; the handler holds no
    client record.  [Registered l r c]: the locals as lines 223-227 leave
    them after [register(r, c, ws)] succeeded: the flag is set, [rid] and
    [cid] hold the identifiers, [thisClient] is the record read from
    [registered_clients], and [deregister(r, c)] is deferred.  The loop of
    [wsHandler] is always in its initial state or in a [Registered] one
    (lemmas [loop_tracked] and [loop_states] below). *)
Definition Unregistered (l : locals) : Prop :=
  registered l = false /\ thisClient l = None.

Definition Registered (l : locals) (r c : string) : Prop :=
  registered l = true /\ rid l = r /\ cid l = c /\
  is_Some (thisClient l) /\ deferred l = [Deregister r c].

(** Modelled from the spec: [roomTable.register] is not part of
    [collider.go].  By the spec a successful registration creates the
    Client and enters it in the Client Directory ([registered_clients]),
    so the read of [registered_clients[cid]] that follows a successful
    [register] finds a record. *)
Definition enters_directory (i : inbound) : Prop :=
  match i with
  | Received m a =>
      register_result a = None -> is_Some (registered_clients a !! ClientID m)
  | _ => True
  end.

(** The commands with a case of their own in the [switch]. *)
Definition recognized (cmd : string) : bool :=
  (cmd =? "register") || (cmd =? "send") || (cmd =? "video_chat") ||
  (cmd =? "audio_chat") || (cmd =? "chat") || (cmd =? "leave").

Definition is_ancillary (cmd : string) : bool :=
  (cmd =? "video_chat") || (cmd =? "audio_chat") || (cmd =? "chat").

(** *** Traces and the invariant of the loop *)

(** A trace without a call of [register], and one without a successful
    call. *)
Definition no_register_call (t : trace) : Prop :=
  forall r c w res, ~ In (Register r c w res) t.

Definition no_registration (t : trace) : Prop :=
  forall r c w, ~ In (Register r c w None) t.

(** What is reported to connection [ws] in a trace. *)
Definition reported (ws : conn) (t : trace) : list string :=
  flat_map (fun k => match k with
                     | SendServerErr w msg => if Nat.eqb w ws then [msg] else []
                     | _ => []
                     end) t.

(** The invariant of the loop started by [wsHandler]: either nothing has
    been registered and the locals are the initial ones, or exactly one
    pair of identifiers has been registered, the locals hold it and its
    deregistration is the one deferred call. *)
Definition tracked (ws : conn) (l : locals) (t : trace) : Prop :=
  (l = initial /\ no_registration t) \/
  (registered l = true /\
   deferred l = [Deregister (rid l) (cid l)] /\
   In (Register (rid l) (cid l) ws None) t /\
   forall r c w, In (Register r c w None) t -> r = rid l /\ c = cid l).

(** ** httpHandler *)

Definition LF : string := String (ascii_of_nat 10) EmptyString.
Definition DQ : string := String (ascii_of_nat 34) EmptyString.

(** [strings.Split(s, sep)] for a separator of one character: the pieces
    of [s] between the occurrences of [sep], one more than there are
    occurrences. *)
Fixpoint Split (s : string) (sep : ascii) : list string :=
  match s with
  | EmptyString => [EmptyString]
  | String ch s' =>
      if Ascii.eqb ch sep then EmptyString :: Split s' sep
      else match Split s' sep with
           | [] => [String ch EmptyString]
           | p :: ps => String ch p :: ps
           end
  end.

Definition slash : ascii := "/"%char.

Fixpoint has_slash (s : string) : bool :=
  match s with
  | EmptyString => false
  | String ch s' => Ascii.eqb ch slash || has_slash s'
  end.

(** The result of [ioutil.ReadAll(r.Body)]. *)
Inductive read_result :=
| ReadOk (body : string)
| ReadErr (e : string).

(** The parts of the [*http.Request] the handler looks at. *)
Record request := mkRequest {
  Method : string;
  Path : string;
  Body : read_result
}.

(** [httpReturnSuccess]: the JSON encoding of the one-entry map
    [result -> SUCCESS]. *)
Definition httpReturnSuccess : trace :=
  [WriteString ("{" ++ DQ ++ "result" ++ DQ ++ ":" ++ DQ ++ "SUCCESS" ++ DQ ++ "}")].

Definition OK : string := "OK" ++ LF.

(** [httpHandler].  [a] gives the result of [roomTable.send] and the
    content of [registered_clients] when the handler reads it. *)
Definition httpHandler (r : request) (a : answers) : trace :=
  [HeaderAdd "Access-Control-Allow-Origin" "*";
   HeaderAdd "Access-Control-Allow-Methods" "POST, DELETE"] ++
  match Split (Path r) slash with
  | [_; rid; cid] =>
      if Method r =? "POST" then
        match Body r with
        | ReadErr e => httpError ("Failed to read request body: " ++ e)
        | ReadOk m =>
            if m =? "" then httpError "Empty request body"
            else
              match send_result a with
              | Some e =>
                  Send rid cid "POST" m (Some e)
                  :: httpError ("Failed to send the message: " ++ e)
              | None =>
                  Send rid cid "POST" m None
                  :: httpReturnSuccess ++ [WriteString OK]
              end
        end
      else if Method r =? "DELETE" then
        (if cid =? "ALL" then [RemoveRoom rid]
         else
           match registered_clients a !! cid with
           | Some c_ => [SendServerErr (rwc c_) "YOU_ARE_OFFLINE"; Remove rid cid]
           | None => [Remove rid cid]
           end)
        ++ [WriteString OK]
      else []
  | _ => httpError ("Invalid path: " ++ Path r)
  end.

(** [httpDeregister]: the path must split in two. *)
Definition httpDeregister (r : request) : trace :=
  HeaderAdd "Access-Control-Allow-Origin" "*" ::
  match Split (Path r) slash with
  | [_; rid] => [RemoveRoom rid; WriteString OK]
  | _ => httpError ("Invalid path: " ++ Path r)
  end.

(** The path of a request for room [r] and client [c]. *)
Definition client_path (r c : string) : string :=
  "/" ++ r ++ "/" ++ c.

(** The number of slashes of a path. *)
Fixpoint count_slash (s : string) : nat :=
  match s with
  | EmptyString => 0
  | String ch s' => (if Ascii.eqb ch slash then 1 else 0) + count_slash s'
  end.

Definition cors_headers : trace :=
  [HeaderAdd "Access-Control-Allow-Origin" "*";
   HeaderAdd "Access-Control-Allow-Methods" "POST, DELETE"].

Definition delete_request (r c : string) (body : read_result) : request :=
  {| Method := "DELETE"; Path := client_path r c; Body := body |}.

(** ** Sample connections *)

Definition alice : client := {| client_id := "a"; rwc := 7 |}.

(** A room table that accepts everything, with [alice] in the directory. *)
Definition accepting : answers :=
  {| register_result := None;
     registered_clients := {["a" := alice]};
     send_result := None;
     sendByID_result := None |}.

(** The same, except that [roomTable.send] fails. *)
Definition send_failing : answers :=
  {| register_result := None;
     registered_clients := {["a" := alice]};
     send_result := Some "corresponding client not registered";
     sendByID_result := None |}.

Definition register_a : inbound :=
  Received {| Cmd := "register"; RoomID := "r"; ClientID := "a";
              Msg := ""; To := "" |} accepting.

Definition cmd_only (cmd : string) : wsClientMsg :=
  {| Cmd := cmd; RoomID := ""; ClientID := ""; Msg := ""; To := "" |}.

Definition send_msg (payload : string) : wsClientMsg :=
  {| Cmd := "send"; RoomID := ""; ClientID := ""; Msg := payload; To := "" |}.

(** The locals after [alice] registered in room [r]. *)
Definition alice_registered : locals :=
  {| rid := "r"; cid := "a"; thisClient := Some alice; registered := true;
     deferred := [Deregister "r" "a"] |}.

(** ** Further definitions *)

(** [sendDeleteError]: send [msg] to the connection of client [cid], when
    [registered_clients] holds a record for it. *)
Definition sendDeleteError (msg cid : string) (a : answers) : trace :=
  match registered_clients a !! cid with
  | Some c_ => [SendServerErr (rwc c_) msg]
  | None => []
  end.

Definition post_request (r c : string) (body : read_result) : request :=
  {| Method := "POST"; Path := client_path r c; Body := body |}.

(** The pieces of a path put together again, a slash between two
    neighbours. *)
Fixpoint join_path (pieces : list string) : string :=
  match pieces with
  | [] => ""
  | [p] => p
  | p :: rest => p ++ "/" ++ join_path rest
  end.

(** The calls [wsHandler] can make on connection [ws], with what the
    handler has checked of their arguments before making them. *)
Definition permitted (ws : conn) (k : call) : bool :=
  match k with
  | Register r c w _ => negb (r =? "") && negb (c =? "") && Nat.eqb w ws
  | Send _ _ kind msg _ => (kind =? "send") && negb (msg =? "")
  | SendByID _ to kind msg _ =>
      is_ancillary kind && negb (to =? "") && negb (msg =? "")
  | SendServerErr w _ => Nat.eqb w ws
  | WsClose w => Nat.eqb w ws
  | Deregister _ _ | IncrWs | OnWsErr _ => true
  | Remove _ _ | RemoveRoom _ | OnHttpErr _ | HeaderAdd _ _
  | HttpError _ _ | WriteString _ => false
  end.

(** Counting the calls of one kind in a trace. *)
Definition count_calls (p : call -> bool) (t : trace) : nat :=
  length (List.filter p t).

Definition is_registration (k : call) : bool :=
  match k with Register _ _ _ None => true | _ => false end.

Definition is_incrWs (k : call) : bool :=
  match k with IncrWs => true | _ => false end.

Definition is_close (k : call) : bool :=
  match k with WsClose _ => true | _ => false end.

(** Two inbound items that differ at most in the identifiers the message
    carries. *)
Definition same_but_ids (i i' : inbound) : Prop :=
  match i, i' with
  | DeadlineFails e, DeadlineFails e' => e = e'
  | ReceiveFails e, ReceiveFails e' => e = e'
  | Received m a, Received m' a' =>
      Cmd m = Cmd m' /\ Msg m = Msg m' /\ To m = To m' /\ a = a'
  | _, _ => False
  end.

(** The room and the client a call of [httpHandler] on the room table is
    about. *)
Definition about (k : call) : option (string * string) :=
  match k with
  | Send r c _ _ _ | Remove r c => Some (r, c)
  | RemoveRoom r => Some (r, "ALL")
  | _ => None
  end.

Definition is_http_error (k : call) : bool :=
  match k with HttpError _ _ => true | _ => false end.

(** * Properties of wsHandler *)

(** ** The switch, case by case *)

Lemma recognized_false (cmd : string) :
  recognized cmd = false ->
  (cmd =? "register") = false /\ (cmd =? "send") = false /\
  (cmd =? "video_chat") = false /\ (cmd =? "audio_chat") = false /\
  (cmd =? "chat") = false /\ (cmd =? "leave") = false.
Proof.
  unfold recognized. intros H.
  repeat (apply orb_false_iff in H; destruct H as [H ?]).
  repeat split; assumption.
Qed.

Lemma is_ancillary_cases (cmd : string) :
  is_ancillary cmd = true ->
  cmd = "video_chat" \/ cmd = "audio_chat" \/ cmd = "chat".
Proof.
  unfold is_ancillary. intros H.
  apply orb_true_iff in H. destruct H as [H | H].
  - apply orb_true_iff in H. destruct H as [H | H];
      apply String.eqb_eq in H; auto.
  - apply String.eqb_eq in H. auto.
Qed.

Lemma dispatch_register (ws : conn) (l : locals) (m : wsClientMsg) (a : answers) :
  Cmd m = "register" ->
  dispatch ws l m a =
    if registered l then
      (l, wsError "Duplicated register request" ws, NextTurn)
    else if (RoomID m =? "") || (ClientID m =? "") then
      (l, wsError "Invalid register request: missing 'clientid' or 'roomid'" ws,
       LeaveLoop)
    else
      match register_result a with
      | Some e =>
          (l, Register (RoomID m) (ClientID m) ws (Some e) :: wsError e ws,
           LeaveLoop)
      | None =>
          ({| rid := RoomID m; cid := ClientID m;
              thisClient := registered_clients a !! ClientID m;
              registered := true;
              deferred := Deregister (RoomID m) (ClientID m) :: deferred l |},
           [Register (RoomID m) (ClientID m) ws None; IncrWs], NextTurn)
      end.
Proof. intros H. unfold dispatch. rewrite H. reflexivity. Qed.

Lemma dispatch_send (ws : conn) (l : locals) (m : wsClientMsg) (a : answers) :
  Cmd m = "send" ->
  dispatch ws l m a =
    match thisClient l with
    | None => (l, [], NextTurn)
    | Some _ =>
        if negb (registered l) then
          (l, wsError "Client not registered" ws, LeaveLoop)
        else if Msg m =? "" then
          (l, wsError "Invalid send request: missing 'msg'" ws, LeaveLoop)
        else
          (l, [Send (rid l) (cid l) "send" (Msg m) (send_result a)], NextTurn)
    end.
Proof. intros H. unfold dispatch. rewrite H. reflexivity. Qed.

Lemma dispatch_ancillary (ws : conn) (l : locals) (m : wsClientMsg) (a : answers) :
  is_ancillary (Cmd m) = true ->
  dispatch ws l m a = ancillary (Cmd m) ws l m a.
Proof.
  intros H. apply is_ancillary_cases in H.
  unfold dispatch. destruct H as [H | [H | H]]; rewrite H; reflexivity.
Qed.

Lemma dispatch_leave (ws : conn) (l : locals) (m : wsClientMsg) (a : answers) :
  Cmd m = "leave" ->
  dispatch ws l m a = (l, [Deregister (rid l) (cid l)], NextTurn).
Proof. intros H. unfold dispatch. rewrite H. reflexivity. Qed.

Lemma dispatch_default (ws : conn) (l : locals) (m : wsClientMsg) (a : answers) :
  recognized (Cmd m) = false ->
  dispatch ws l m a =
    (l, wsError "Invalid message: unexpected 'cmd'" ws, NextTurn).
Proof.
  intros H. apply recognized_false in H.
  destruct H as (H1 & H2 & H3 & H4 & H5 & H6).
  unfold dispatch. rewrite H1, H2, H3, H4, H5, H6. reflexivity.
Qed.

(** Every command falls in one of the five groups. *)
Lemma cmd_cases (cmd : string) :
  cmd = "register" \/ cmd = "send" \/ is_ancillary cmd = true \/
  cmd = "leave" \/ recognized cmd = false.
Proof.
  unfold is_ancillary, recognized.
  destruct (String.eqb_spec cmd "register"); [auto |].
  destruct (String.eqb_spec cmd "send"); [auto |].
  destruct (String.eqb_spec cmd "video_chat"); [auto |].
  destruct (String.eqb_spec cmd "audio_chat"); [auto |].
  destruct (String.eqb_spec cmd "chat"); [auto |].
  destruct (String.eqb_spec cmd "leave"); auto 6.
Qed.

(** ** What a turn can do to the locals *)

Lemma no_register_call_weaken (t : trace) :
  no_register_call t -> no_registration t.
Proof. intros H r c w. apply H. Qed.

Lemma no_register_call_wsError (msg : string) (ws : conn) :
  no_register_call (wsError msg ws).
Proof. intros r c w res [H | [H | []]]; discriminate. Qed.

Lemma no_register_call_nil : no_register_call [].
Proof. intros r c w res []. Qed.

Lemma no_register_call_app (t t' : trace) :
  no_register_call t -> no_register_call t' -> no_register_call (t ++ t').
Proof.
  intros H H' r c w res Hin. apply in_app_or in Hin.
  destruct Hin as [Hin | Hin]; [eapply H | eapply H']; eassumption.
Qed.

Lemma no_registration_app (t t' : trace) :
  no_registration t -> no_registration t' -> no_registration (t ++ t').
Proof.
  intros H H' r c w Hin. apply in_app_or in Hin.
  destruct Hin as [Hin | Hin]; [eapply H | eapply H']; eassumption.
Qed.

Create HintDb collider.

#[local] Hint Resolve no_register_call_wsError no_register_call_nil
  no_register_call_weaken : collider.

Lemma ancillary_inert (kind : string) (ws : conn) (l : locals)
    (m : wsClientMsg) (a : answers) :
  exists t, ancillary kind ws l m a = (l, t, NextTurn) /\ no_register_call t.
Proof.
  unfold ancillary.
  destruct (thisClient l) as [this |]; [| exists []; auto with collider].
  destruct (negb (Msg m =? "") && negb (To m =? ""));
    [| exists []; auto with collider].
  destruct (sendByID_result a) as [e |]; eexists; (split; [reflexivity |]);
    intros r c w res H; simpl in H; intuition discriminate.
Qed.

(** Once the flag is set a turn never touches the locals and never calls
    [register]. *)
Lemma turn_registered (ws : conn) (l : locals) (i : inbound) :
  registered l = true ->
  exists t k, turn ws l i = (l, t, k) /\ no_register_call t.
Proof.
  intros Hreg. destruct i as [e | e | m a]; simpl.
  - do 2 eexists. split; [reflexivity | auto with collider].
  - destruct (e =? "EOF"); do 2 eexists;
      (split; [reflexivity | auto with collider]).
  - destruct (cmd_cases (Cmd m)) as [H | [H | [H | [H | H]]]].
    + rewrite dispatch_register, Hreg by assumption.
      do 2 eexists. split; [reflexivity | auto with collider].
    + rewrite dispatch_send, Hreg by assumption. simpl.
      destruct (thisClient l) as [this |]; [destruct (Msg m =? "") |];
        do 2 eexists; (split; [reflexivity |]); auto with collider.
      intros r c w res [H' | []]; discriminate.
    + rewrite dispatch_ancillary by assumption.
      destruct (ancillary_inert (Cmd m) ws l m a) as (t & Ht & Hn).
      exists t, NextTurn. auto.
    + rewrite dispatch_leave by assumption.
      do 2 eexists. split; [reflexivity |].
      intros r c w res [H' | []]; discriminate.
    + rewrite dispatch_default by assumption.
      do 2 eexists. split; [reflexivity | auto with collider].
Qed.

(** Before any registration a turn either leaves the locals as they were,
    or it is the successful [register] of lines 218-227. *)
Lemma turn_initial (ws : conn) (i : inbound) :
  (exists t k, turn ws initial i = (initial, t, k) /\ no_registration t) \/
  (exists m a,
      i = Received m a /\ register_result a = None /\
      turn ws initial i =
        ({| rid := RoomID m; cid := ClientID m;
            thisClient := registered_clients a !! ClientID m;
            registered := true;
            deferred := [Deregister (RoomID m) (ClientID m)] |},
         [Register (RoomID m) (ClientID m) ws None; IncrWs], NextTurn)).
Proof.
  destruct i as [e | e | m a]; simpl.
  - left. do 2 eexists. split; [reflexivity | auto with collider].
  - left. destruct (e =? "EOF"); do 2 eexists;
      (split; [reflexivity | auto with collider]).
  - destruct (cmd_cases (Cmd m)) as [H | [H | [H | [H | H]]]].
    + rewrite dispatch_register by assumption. simpl.
      destruct ((RoomID m =? "") || (ClientID m =? "")).
      * left. do 2 eexists. split; [reflexivity | auto with collider].
      * destruct (register_result a) as [e |] eqn:Hres.
        -- left. do 2 eexists. split; [reflexivity |].
           intros r c w [H' | [H' | [H' | []]]]; discriminate.
        -- right. exists m, a. auto.
    + left. rewrite dispatch_send by assumption. simpl.
      do 2 eexists. split; [reflexivity | auto with collider].
    + left. rewrite dispatch_ancillary by assumption.
      destruct (ancillary_inert (Cmd m) ws initial m a) as (t & Ht & Hn).
      exists t, NextTurn. auto with collider.
    + left. rewrite dispatch_leave by assumption.
      do 2 eexists. split; [reflexivity |].
      intros r c w [H' | []]; discriminate.
    + left. rewrite dispatch_default by assumption.
      do 2 eexists. split; [reflexivity | auto with collider].
Qed.

(** ** The loop *)

Lemma locals_of_after (t : trace) (r : loop_result) :
  locals_of (after t r) = locals_of r.
Proof. destruct r; reflexivity. Qed.

Lemma calls_after (t : trace) (r : loop_result) :
  calls (after t r) = t ++ calls r.
Proof. destruct r; reflexivity. Qed.

Lemma after_after (t t' : trace) (r : loop_result) :
  after t (after t' r) = after (t ++ t') r.
Proof. destruct r; simpl; rewrite app_assoc; reflexivity. Qed.

(** What has been handled stays handled when more arrives. *)
Lemma loop_app (ws : conn) (ins rest : list inbound) :
  forall l l' t,
    loop ws l ins = Waiting l' t ->
    loop ws l (ins ++ rest) = after t (loop ws l' rest).
Proof.
  induction ins as [| i ins IH]; intros l l' t H; simpl in *.
  - injection H as <- <-. destruct (loop ws l rest); reflexivity.
  - destruct (turn ws l i) as [[l1 t1] [|]]; [| discriminate].
    destruct (loop ws l1 ins) as [l2 t2 | l2 t2] eqn:E; [discriminate |].
    simpl in H. injection H as <- <-.
    rewrite (IH _ _ _ E), after_after. reflexivity.
Qed.


(** From a state with the flag set, the loop keeps the locals and never
    registers. *)
Lemma loop_registered (ws : conn) (ins : list inbound) (l : locals) :
  registered l = true ->
  locals_of (loop ws l ins) = l /\ no_register_call (calls (loop ws l ins)).
Proof.
  intros Hreg. induction ins as [| i ins [IHl IHt]]; simpl.
  - auto with collider.
  - destruct (turn_registered ws l i Hreg) as (t & k & -> & Hn).
    destruct k; simpl; [| auto].
    rewrite locals_of_after, calls_after.
    split; [assumption | apply no_register_call_app; assumption].
Qed.

Lemma tracked_after (ws : conn) (l : locals) (t t' : trace) :
  no_registration t -> tracked ws l t' -> tracked ws l (t ++ t').
Proof.
  intros Hn [[-> Hn'] | (Hreg & Hdef & Hin & Huniq)].
  - left. split; [reflexivity | apply no_registration_app; assumption].
  - right. repeat split; try assumption.
    + apply in_or_app. auto.
    + apply in_app_or in H. destruct H as [H | H];
        [destruct (Hn _ _ _ H) | apply (Huniq _ _ _ H)].
    + apply in_app_or in H. destruct H as [H | H];
        [destruct (Hn _ _ _ H) | apply (Huniq _ _ _ H)].
Qed.

Lemma loop_tracked (ws : conn) (ins : list inbound) :
  tracked ws (locals_of (loop ws initial ins)) (calls (loop ws initial ins)).
Proof.
  induction ins as [| i ins IH]; simpl.
  - left. auto with collider.
  - destruct (turn_initial ws i) as [(t & k & -> & Hn) | (m & a & -> & Hres & ->)].
    + destruct k; simpl.
      * rewrite locals_of_after, calls_after. apply tracked_after; assumption.
      * left. auto.
    + rewrite locals_of_after, calls_after.
      match goal with |- context [loop ws ?l1 ins] =>
        destruct (loop_registered ws ins l1 eq_refl) as [-> Hn] end.
      right. simpl. repeat split; auto.
      * destruct H as [H | [H | H]]; [congruence | discriminate |].
        destruct (Hn _ _ _ _ H).
      * destruct H as [H | [H | H]]; [congruence | discriminate |].
        destruct (Hn _ _ _ _ H).
Qed.

(** X20.  With the directory filled by [register], a set flag comes with a
    client record: the loop of [wsHandler] is either still in its initial
    state or in a [Registered] one. *)
Lemma loop_states (ws : conn) (ins : list inbound) :
  Forall enters_directory ins ->
  let l := locals_of (loop ws initial ins) in
  l = initial \/ Registered l (rid l) (cid l).
Proof.
  induction ins as [| i ins IH]; intros Hdir; simpl.
  - auto.
  - apply Forall_cons_1 in Hdir. destruct Hdir as [Hi Hins].
    destruct (turn_initial ws i) as [(t & k & -> & Hn) | (m & a & -> & Hres & ->)].
    + destruct k; simpl; [| auto].
      rewrite locals_of_after. apply IH. assumption.
    + rewrite locals_of_after.
      match goal with |- context [loop ws ?l1 ins] =>
        destruct (loop_registered ws ins l1 eq_refl) as [-> _] end.
      right. unfold Registered. simpl. repeat split. apply Hi, Hres.
Qed.

Lemma alice_registers :
  loop 7 initial [register_a] =
    Waiting alice_registered [Register "r" "a" 7 None; IncrWs].
Proof. vm_compute. reflexivity. Qed.

Lemma alice_Registered : Registered alice_registered "r" "a".
Proof. unfold Registered. simpl. repeat split. exists alice. reflexivity. Qed.

(** ** Leaving the loop *)

(** A failing [SetReadDeadline] or [Receive] always ends the loop. *)
Lemma transport_failure_leaves (ws : conn) (l : locals) (e : string) :
  (exists t, turn ws l (DeadlineFails e) = (l, t, LeaveLoop)) /\
  (exists t, turn ws l (ReceiveFails e) = (l, t, LeaveLoop)).
Proof.
  split; simpl; [| destruct (e =? "EOF")]; eexists; reflexivity.
Qed.

(** The handler returns exactly when the loop is left; it then closes the
    connection and runs what was deferred. *)
Lemma wsHandler_exit (ws : conn) (ins rest : list inbound) (i : inbound)
    (l l' : locals) (t t' : trace) :
  loop ws initial ins = Waiting l t ->
  turn ws l i = (l', t', LeaveLoop) ->
  wsHandler ws (ins ++ i :: rest) = Some (t ++ t' ++ WsClose ws :: deferred l').
Proof.
  intros Hloop Hturn. unfold wsHandler.
  rewrite (loop_app ws ins (i :: rest) _ _ _ Hloop). simpl.
  rewrite Hturn. simpl. rewrite <- app_assoc. reflexivity.
Qed.

(** Whenever the handler has returned after a successful registration, its
    last two calls were closing the connection and deregistering what it
    had registered. *)
Lemma wsHandler_returned (ws : conn) (ins : list inbound) (t : trace)
    (r c : string) :
  wsHandler ws ins = Some t ->
  In (Register r c ws None) t ->
  exists t0, t = t0 ++ [WsClose ws; Deregister r c].
Proof.
  unfold wsHandler. intros Hret Hin.
  pose proof (loop_tracked ws ins) as Htr.
  destruct (loop ws initial ins) as [l t1 | l t1]; [| discriminate].
  injection Hret as <-. simpl in Htr.
  destruct Htr as [[-> Hn] | (_ & Hdef & _ & Huniq)].
  - apply in_app_or in Hin. destruct Hin as [Hin | [Hin | []]];
      [destruct (Hn _ _ _ Hin) | discriminate].
  - rewrite Hdef in *. apply in_app_or in Hin.
    destruct Hin as [Hin | [Hin | [Hin | []]]]; try discriminate.
    destruct (Huniq _ _ _ Hin) as [-> ->]. exists t1. reflexivity.
Qed.

(** C1.  On a connection that has registered room [r] and client [c] and
    whose loop is still running, whatever makes the loop end (a failing
    read, a decode failure, a protocol error) makes the handler return
    with [deregister(r, c)] as its last call, after closing the
    connection; a failing read always ends the loop; and a leave command
    calls [deregister(r, c)] itself. *)
Theorem wsHandler_deregisters_on_exit (ws : conn) (ins : list inbound)
    (l : locals) (t : trace) (r c : string) :
  loop ws initial ins = Waiting l t ->
  In (Register r c ws None) t ->
  (forall i l' t' rest,
      turn ws l i = (l', t', LeaveLoop) ->
      wsHandler ws (ins ++ i :: rest) =
        Some (t ++ t' ++ [WsClose ws; Deregister r c])) /\
  (forall e rest, exists t',
      wsHandler ws (ins ++ ReceiveFails e :: rest) =
        Some (t ++ t' ++ [WsClose ws; Deregister r c])) /\
  (forall m a,
      Cmd m = "leave" ->
      dispatch ws l m a = (l, [Deregister r c], NextTurn)).
Proof.
  intros Hloop Hin.
  pose proof (loop_tracked ws ins) as Htr. rewrite Hloop in Htr. simpl in Htr.
  destruct Htr as [[_ Hn] | (Hreg & Hdef & _ & Huniq)];
    [destruct (Hn _ _ _ Hin) |].
  destruct (Huniq _ _ _ Hin) as [-> ->].
  assert (Hexit : forall i l' t' rest,
             turn ws l i = (l', t', LeaveLoop) ->
             wsHandler ws (ins ++ i :: rest) =
               Some (t ++ t' ++ [WsClose ws; Deregister (rid l) (cid l)])).
  { intros i l' t' rest Hturn.
    destruct (turn_registered ws l i Hreg) as (t1 & k & Ht & _).
    rewrite Ht in Hturn. injection Hturn as <- <- ->.
    rewrite (wsHandler_exit ws ins rest i l l t t1 Hloop Ht), Hdef.
    reflexivity. }
  split; [exact Hexit | split].
  - intros e rest.
    destruct (transport_failure_leaves ws l e) as [_ [t' Ht']].
    exists t'. apply (Hexit _ _ _ rest Ht').
  - intros m a Hcmd. apply dispatch_leave. assumption.
Qed.

Lemma wsHandler_deregisters_on_exit_witness :
  wsHandler 7 ([register_a] ++ ReceiveFails "EOF" :: []) =
    Some ([Register "r" "a" 7 None; IncrWs] ++ [] ++
          [WsClose 7; Deregister "r" "a"]).
Proof.
  apply (proj1 (wsHandler_deregisters_on_exit 7 [register_a] alice_registered
                  [Register "r" "a" 7 None; IncrWs] "r" "a"
                  alice_registers (or_introl eq_refl))
           (ReceiveFails "EOF") alice_registered [] []).
  reflexivity.
Defined.

(** ** Unrecognized commands *)

(** X21.  An unrecognized command is reported, and the loop goes on to the next
    message with the same locals: the [break] of the [default] case leaves
    the [switch], not the loop. *)
Lemma unrecognized_loop (ws : conn) (l : locals) (m : wsClientMsg)
    (a : answers) (rest : list inbound) :
  recognized (Cmd m) = false ->
  loop ws l (Received m a :: rest) =
    after (wsError "Invalid message: unexpected 'cmd'" ws) (loop ws l rest).
Proof.
  intros H. simpl. rewrite dispatch_default by assumption. reflexivity.
Qed.

(** C2.  The handler does not stop at an unrecognized command: after
    reporting it, it handles the registration that arrives next, and it
    returns only when the connection is closed by the peer. *)
Theorem unrecognized_cmd_is_not_fatal :
  recognized "bogus" = false /\
  wsHandler 7 [Received (cmd_only "bogus") accepting; register_a;
               ReceiveFails "EOF"] =
    Some [SendServerErr 7 "Invalid message: unexpected 'cmd'";
          OnWsErr "Invalid message: unexpected 'cmd'";
          Register "r" "a" 7 None; IncrWs;
          WsClose 7; Deregister "r" "a"] /\
  wsHandler 7 [Received (cmd_only "bogus") accepting] = None.
Proof. vm_compute. auto. Qed.

(** ** Leave *)

(** C3, as the code has it.  On a registered connection a leave command
    calls [deregister] with the registered identifiers, keeps the
    connection open and leaves the locals as they are, the flag included:
    from then on the handler never calls [register] again, and every
    register command is answered with the duplicate-registration
    error. *)
Theorem leave_keeps_connection_registered (ws : conn) (l : locals)
    (r c : string) (m : wsClientMsg) (a : answers) :
  Registered l r c ->
  Cmd m = "leave" ->
  dispatch ws l m a = (l, [Deregister r c], NextTurn) /\
  (forall later,
      locals_of (loop ws l later) = l /\
      no_register_call (calls (loop ws l later))) /\
  (forall m' a',
      Cmd m' = "register" ->
      dispatch ws l m' a' =
        (l, wsError "Duplicated register request" ws, NextTurn)).
Proof.
  intros (Hreg & <- & <- & _ & _) Hcmd.
  split; [apply dispatch_leave; assumption | split].
  - intros later. apply loop_registered. assumption.
  - intros m' a' Hcmd'. rewrite dispatch_register, Hreg by assumption.
    reflexivity.
Qed.

Lemma leave_keeps_connection_registered_witness :
  dispatch 7 alice_registered (cmd_only "leave") accepting =
    (alice_registered, [Deregister "r" "a"], NextTurn).
Proof.
  apply (proj1 (leave_keeps_connection_registered 7 alice_registered "r" "a"
                  (cmd_only "leave") accepting alice_Registered eq_refl)).
Defined.

(** C3, as stated, fails: after [alice] registered and left, a register
    command is not passed to the room table although the room table would
    accept it; it is rejected as a duplicate. *)
Lemma reregistration_after_leave_counterexample :
  wsHandler 7 [register_a; Received (cmd_only "leave") accepting;
               register_a; ReceiveFails "EOF"] =
    Some [Register "r" "a" 7 None; IncrWs;
          Deregister "r" "a";
          SendServerErr 7 "Duplicated register request";
          OnWsErr "Duplicated register request";
          WsClose 7; Deregister "r" "a"] /\
  ~ (exists m a l' t k,
        Cmd m = "register" /\
        dispatch 7 alice_registered m a = (l', t, k) /\
        In (Register (RoomID m) (ClientID m) 7 None) t).
Proof.
  split; [vm_compute; reflexivity |].
  intros (m & a & l' & t & k & Hcmd & Hd & Hin).
  rewrite dispatch_register in Hd by assumption. simpl in Hd.
  injection Hd as <- <- <-.
  destruct Hin as [H | [H | []]]; discriminate.
Qed.

(** ** Send *)

(** X22.  On a registered connection a send with a payload is passed to the room
    table, and whatever [roomTable.send] returns is dropped: the turn makes
    no other call and the loop goes on. *)
Lemma send_result_dropped (ws : conn) (l : locals) (r c : string)
    (m : wsClientMsg) (a : answers) :
  Registered l r c ->
  Cmd m = "send" ->
  Msg m <> "" ->
  dispatch ws l m a =
    (l, [Send r c "send" (Msg m) (send_result a)], NextTurn).
Proof.
  intros (Hreg & <- & <- & [this Hthis] & _) Hcmd Hmsg.
  rewrite dispatch_send, Hthis, Hreg by assumption. simpl.
  apply String.eqb_neq in Hmsg. rewrite Hmsg. reflexivity.
Qed.

(** C4.  [alice], registered in room [r], sends a payload and
    [roomTable.send] returns an error: the handler makes the call and
    nothing else; nothing at all is reported to the connection, which
    stays open until the peer closes it. *)
Theorem send_error_is_not_reported :
  let t := [Register "r" "a" 7 None; IncrWs;
            Send "r" "a" "send" "hello"
              (Some "corresponding client not registered");
            WsClose 7; Deregister "r" "a"] in
  wsHandler 7 [register_a; Received (send_msg "hello") send_failing;
               ReceiveFails "EOF"] = Some t /\
  reported 7 t = [] /\
  wsHandler 7 [register_a; Received (send_msg "hello") send_failing] = None.
Proof. vm_compute. auto. Qed.

(** C8.  On a registered connection a send without payload ends the
    handler: the error is reported, [roomTable.send] is not called, what
    arrives afterwards is not looked at, the connection is closed and the
    client deregistered. *)
Theorem empty_send_is_fatal (ws : conn) (ins rest : list inbound)
    (l : locals) (t : trace) (r c : string) (m : wsClientMsg) (a : answers) :
  loop ws initial ins = Waiting l t ->
  Registered l r c ->
  Cmd m = "send" ->
  Msg m = "" ->
  dispatch ws l m a =
    (l, [SendServerErr ws "Invalid send request: missing 'msg'";
         OnWsErr "Invalid send request: missing 'msg'"], LeaveLoop) /\
  wsHandler ws (ins ++ Received m a :: rest) =
    Some (t ++ [SendServerErr ws "Invalid send request: missing 'msg'";
                OnWsErr "Invalid send request: missing 'msg'";
                WsClose ws; Deregister r c]).
Proof.
  intros Hloop (Hreg & <- & <- & [this Hthis] & Hdef) Hcmd Hmsg.
  assert (Hd : dispatch ws l m a =
                 (l, wsError "Invalid send request: missing 'msg'" ws, LeaveLoop)).
  { rewrite dispatch_send, Hthis, Hreg, Hmsg by assumption. reflexivity. }
  split; [exact Hd |].
  rewrite (wsHandler_exit ws ins rest (Received m a) l l t _ Hloop Hd), Hdef.
  reflexivity.
Qed.

Lemma empty_send_is_fatal_witness :
  wsHandler 7 ([register_a] ++ Received (send_msg "") accepting :: [register_a]) =
    Some ([Register "r" "a" 7 None; IncrWs] ++
          [SendServerErr 7 "Invalid send request: missing 'msg'";
           OnWsErr "Invalid send request: missing 'msg'";
           WsClose 7; Deregister "r" "a"]).
Proof.
  apply (proj2 (empty_send_is_fatal 7 [register_a] [register_a]
                  alice_registered [Register "r" "a" 7 None; IncrWs] "r" "a"
                  (send_msg "") accepting
                  alice_registers alice_Registered eq_refl eq_refl)).
Defined.

(** ** Before registration *)

(** The only unregistered state the loop of [wsHandler] is ever in is the
    initial one. *)
Lemma unregistered_is_initial (ws : conn) (ins : list inbound) :
  registered (locals_of (loop ws initial ins)) = false ->
  locals_of (loop ws initial ins) = initial /\
  Unregistered (locals_of (loop ws initial ins)).
Proof.
  intros H. destruct (loop_tracked ws ins) as [[-> _] | (Hreg & _)].
  - split; [reflexivity | split; reflexivity].
  - congruence.
Qed.

(** C5, as the code has it.  On an unregistered connection a send, a
    video_chat, an audio_chat or a chat command is dropped: the handler
    makes no call at all (nothing is reported, the room table is not
    touched), keeps its locals and goes on with the next message; a leave
    command reports nothing either and the loop goes on. *)
Theorem unregistered_commands_ignored (ws : conn) (l : locals)
    (m : wsClientMsg) (a : answers) :
  Unregistered l ->
  (Cmd m = "send" \/ is_ancillary (Cmd m) = true ->
     dispatch ws l m a = (l, [], NextTurn)) /\
  (Cmd m = "leave" ->
     dispatch ws l m a = (l, [Deregister (rid l) (cid l)], NextTurn)).
Proof.
  intros [Hreg Hthis]. split.
  - intros [H | H].
    + rewrite dispatch_send, Hthis by assumption. reflexivity.
    + rewrite dispatch_ancillary by assumption.
      unfold ancillary. rewrite Hthis. reflexivity.
  - apply dispatch_leave.
Qed.

Lemma unregistered_commands_ignored_witness :
  dispatch 7 initial (send_msg "hello") accepting = (initial, [], NextTurn).
Proof.
  apply (proj1 (unregistered_commands_ignored 7 initial (send_msg "hello")
                  accepting (conj eq_refl eq_refl))).
  left. reflexivity.
Defined.

(** C5, as stated, fails: a send on a fresh connection is not answered
    with any error; nothing is reported to the connection. *)
Lemma unregistered_send_counterexample :
  Unregistered initial /\
  dispatch 7 initial (send_msg "hello") accepting = (initial, [], NextTurn) /\
  ~ (exists e l' t k,
        dispatch 7 initial (send_msg "hello") accepting = (l', t, k) /\
        In (SendServerErr 7 e) t).
Proof.
  split; [split; reflexivity | split; [reflexivity |]].
  intros (e & l' & t & k & Hd & Hin).
  vm_compute in Hd. injection Hd as <- <- <-. destruct Hin.
Qed.

(** ** Register *)

(** C6.  On a registered connection a register command is answered with
    the duplicate-registration error and nothing else happens: the room
    table is not called, the locals (flag, identifiers, client record,
    deferred call) are what they were, so the connection is still
    registered under the same identifiers, and the loop goes on. *)
Theorem duplicate_register_rejected (ws : conn) (l : locals) (r c : string)
    (m : wsClientMsg) (a : answers) :
  Registered l r c ->
  Cmd m = "register" ->
  dispatch ws l m a =
    (l, [SendServerErr ws "Duplicated register request";
         OnWsErr "Duplicated register request"], NextTurn).
Proof.
  intros (Hreg & _) Hcmd.
  rewrite dispatch_register, Hreg by assumption. reflexivity.
Qed.

Lemma duplicate_register_rejected_witness :
  dispatch 7 alice_registered
    {| Cmd := "register"; RoomID := "q"; ClientID := "b";
       Msg := ""; To := "" |} accepting =
    (alice_registered,
     [SendServerErr 7 "Duplicated register request";
      OnWsErr "Duplicated register request"], NextTurn).
Proof.
  apply (duplicate_register_rejected 7 alice_registered "r" "a"
           {| Cmd := "register"; RoomID := "q"; ClientID := "b";
              Msg := ""; To := "" |} accepting alice_Registered eq_refl).
Defined.

(** C7, as the code has it.  On a connection that is not registered yet, a
    register command with an empty room or client identifier ends the
    handler: the error is reported, [roomTable.register] is not called,
    what arrives afterwards is not looked at, and the connection is
    closed. *)
Theorem register_missing_id_is_fatal (ws : conn) (ins rest : list inbound)
    (l : locals) (t : trace) (m : wsClientMsg) (a : answers) :
  loop ws initial ins = Waiting l t ->
  registered l = false ->
  Cmd m = "register" ->
  RoomID m = "" \/ ClientID m = "" ->
  dispatch ws l m a =
    (l, [SendServerErr ws "Invalid register request: missing 'clientid' or 'roomid'";
         OnWsErr "Invalid register request: missing 'clientid' or 'roomid'"],
     LeaveLoop) /\
  wsHandler ws (ins ++ Received m a :: rest) =
    Some (t ++
          [SendServerErr ws "Invalid register request: missing 'clientid' or 'roomid'";
           OnWsErr "Invalid register request: missing 'clientid' or 'roomid'";
           WsClose ws]).
Proof.
  intros Hloop Hreg Hcmd Hid.
  assert (Hempty : (RoomID m =? "") || (ClientID m =? "") = true).
  { apply orb_true_iff. destruct Hid as [-> | ->]; auto. }
  assert (Hd : dispatch ws l m a =
    (l, wsError "Invalid register request: missing 'clientid' or 'roomid'" ws,
     LeaveLoop)).
  { rewrite dispatch_register, Hreg, Hempty by assumption. reflexivity. }
  split; [exact Hd |].
  rewrite (wsHandler_exit ws ins rest (Received m a) l l t _ Hloop Hd).
  pose proof (unregistered_is_initial ws ins) as Hinit.
  rewrite Hloop in Hinit. simpl in Hinit.
  destruct (Hinit Hreg) as [-> _]. reflexivity.
Qed.

Lemma register_missing_id_is_fatal_witness :
  wsHandler 7 ([] ++ Received (cmd_only "register") accepting :: [register_a]) =
    Some ([] ++
          [SendServerErr 7 "Invalid register request: missing 'clientid' or 'roomid'";
           OnWsErr "Invalid register request: missing 'clientid' or 'roomid'";
           WsClose 7]).
Proof.
  apply (proj2 (register_missing_id_is_fatal 7 [] [register_a] initial []
                  (cmd_only "register") accepting
                  eq_refl eq_refl eq_refl (or_introl eq_refl))).
Defined.

(** C7, as stated, fails on a connection that is already registered: the
    duplicate check comes first, so a register command without
    identifiers is answered with the duplicate-registration error and the
    loop goes on; the send that follows is handled. *)
Lemma register_missing_id_counterexample :
  Registered alice_registered "r" "a" /\
  RoomID (cmd_only "register") = "" /\
  dispatch 7 alice_registered (cmd_only "register") accepting =
    (alice_registered,
     [SendServerErr 7 "Duplicated register request";
      OnWsErr "Duplicated register request"], NextTurn) /\
  wsHandler 7 [register_a; Received (cmd_only "register") accepting;
               Received (send_msg "hello") accepting; ReceiveFails "EOF"] =
    Some [Register "r" "a" 7 None; IncrWs;
          SendServerErr 7 "Duplicated register request";
          OnWsErr "Duplicated register request";
          Send "r" "a" "send" "hello" None;
          WsClose 7; Deregister "r" "a"].
Proof.
  split; [exact alice_Registered |].
  vm_compute. auto.
Qed.

(** ** Ancillary commands *)

(** C9.  On a registered connection a video_chat, audio_chat or chat
    command with a target and a payload calls [sendByID] on the
    connection's client record with that target, the command as kind, and
    the payload (an error it returns is reported to the connection); with
    an empty target or payload the handler makes no call at all.  In both
    cases the locals are kept and the loop goes on. *)
Theorem ancillary_commands_routed (ws : conn) (l : locals) (r c : string)
    (m : wsClientMsg) (a : answers) :
  Registered l r c ->
  is_ancillary (Cmd m) = true ->
  (Msg m <> "" /\ To m <> "" ->
     exists this,
       thisClient l = Some this /\
       dispatch ws l m a =
         (l, SendByID this (To m) (Cmd m) (Msg m) (sendByID_result a)
             :: match sendByID_result a with
                | None => []
                | Some e => [SendServerErr ws e]
                end, NextTurn)) /\
  (Msg m = "" \/ To m = "" ->
     dispatch ws l m a = (l, [], NextTurn)).
Proof.
  intros (_ & _ & _ & [this Hthis] & _) Hcmd.
  rewrite dispatch_ancillary by assumption. unfold ancillary. rewrite Hthis.
  split.
  - intros [Hmsg Hto]. exists this. split; [reflexivity |].
    apply String.eqb_neq in Hmsg, Hto. rewrite Hmsg, Hto. simpl.
    destruct (sendByID_result a); reflexivity.
  - intros [-> | ->]; simpl; [reflexivity |].
    rewrite andb_false_r. reflexivity.
Qed.

Lemma ancillary_commands_routed_witness :
  exists this,
    thisClient alice_registered = Some this /\
    dispatch 7 alice_registered
      {| Cmd := "chat"; RoomID := ""; ClientID := ""; Msg := "hi"; To := "b" |}
      accepting =
      (alice_registered, [SendByID this "b" "chat" "hi" None], NextTurn).
Proof.
  apply (proj1 (ancillary_commands_routed 7 alice_registered "r" "a"
                  {| Cmd := "chat"; RoomID := ""; ClientID := "";
                     Msg := "hi"; To := "b" |} accepting
                  alice_Registered eq_refl)).
  split; discriminate.
Defined.

(** * Properties of httpHandler *)

(** ** Splitting the path *)

Lemma Split_no_slash (s : string) :
  has_slash s = false -> Split s slash = [s].
Proof.
  induction s as [| ch s IH]; simpl; intros H; [reflexivity |].
  apply orb_false_iff in H. destruct H as [Hch Hs].
  rewrite Hch, (IH Hs). reflexivity.
Qed.

Lemma Split_segment (s rest : string) :
  has_slash s = false ->
  Split (s ++ String slash rest) slash = s :: Split rest slash.
Proof.
  induction s as [| ch s IH]; simpl; intros H; [reflexivity |].
  apply orb_false_iff in H. destruct H as [Hch Hs].
  rewrite Hch, (IH Hs). reflexivity.
Qed.

Lemma Split_client_path (r c : string) :
  has_slash r = false ->
  has_slash c = false ->
  Split (client_path r c) slash = [""; r; c].
Proof.
  intros Hr Hc. unfold client_path.
  change ("/" ++ r ++ "/" ++ c)%string
    with ("" ++ String slash (r ++ String slash c))%string.
  rewrite (Split_segment "" _ eq_refl), (Split_segment r c Hr),
    (Split_no_slash c Hc).
  reflexivity.
Qed.

(** There is one piece more than there are slashes, so only a path with
    exactly two slashes gets past the length check. *)
Lemma Split_length (s : string) :
  length (Split s slash) = S (count_slash s).
Proof.
  induction s as [| ch s IH]; simpl; [reflexivity |].
  destruct (Ascii.eqb ch slash); simpl.
  - f_equal. exact IH.
  - destruct (Split s slash) as [| p ps]; [discriminate | exact IH].
Qed.

(** ** DELETE *)

(** C10.  A DELETE request for room [r] and client [c]: when [c] is the
    string ALL the handler calls [removeRoom(r)] and nothing else on the
    room table; otherwise it calls [remove(r, c)], preceded, when
    [registered_clients] holds a record for [c], by the server error
    YOU_ARE_OFFLINE sent to that record's connection.  In every case the
    reply is OK. *)
Theorem delete_removes_room_or_client (r c : string) (body : read_result)
    (a : answers) :
  has_slash r = false ->
  has_slash c = false ->
  (c = "ALL" ->
     httpHandler (delete_request r c body) a =
       cors_headers ++ [RemoveRoom r; WriteString OK]) /\
  (c <> "ALL" ->
     forall c_, registered_clients a !! c = Some c_ ->
     httpHandler (delete_request r c body) a =
       cors_headers ++
       [SendServerErr (rwc c_) "YOU_ARE_OFFLINE"; Remove r c; WriteString OK]) /\
  (c <> "ALL" ->
     registered_clients a !! c = None ->
     httpHandler (delete_request r c body) a =
       cors_headers ++ [Remove r c; WriteString OK]).
Proof.
  intros Hr Hc. unfold httpHandler, delete_request. simpl Path. simpl Method.
  rewrite (Split_client_path r c Hr Hc).
  change ("DELETE" =? "POST") with false.
  change ("DELETE" =? "DELETE") with true. cbv iota.
  repeat split.
  - intros ->. reflexivity.
  - intros Hne c_ Hdir. apply String.eqb_neq in Hne.
    rewrite Hne, Hdir. reflexivity.
  - intros Hne Hdir. apply String.eqb_neq in Hne.
    rewrite Hne, Hdir. reflexivity.
Qed.

Lemma delete_removes_room_or_client_witness :
  httpHandler (delete_request "r" "a" (ReadOk "")) accepting =
    cors_headers ++
    [SendServerErr 7 "YOU_ARE_OFFLINE"; Remove "r" "a"; WriteString OK].
Proof.
  apply (proj1 (proj2 (delete_removes_room_or_client "r" "a" (ReadOk "")
                         accepting eq_refl eq_refl)) ltac:(discriminate) alice).
  vm_compute. reflexivity.
Defined.

(** * Further properties of wsHandler *)

(** ** Turn by turn *)

(** Case analysis over every test a turn makes. *)
Ltac turn_cases :=
  repeat match goal with
         | |- context [if ?b then _ else _] => destruct b eqn:?
         | |- context [match ?x with Some _ => _ | None => _ end] =>
             destruct x eqn:?
         end.

Lemma ancillary_permitted (kind : string) (ws : conn) (l : locals)
    (m : wsClientMsg) (a : answers) :
  is_ancillary kind = true ->
  forallb (permitted ws) (snd (fst (ancillary kind ws l m a))) = true.
Proof.
  intros Hk. unfold ancillary. turn_cases; simpl; try reflexivity;
    rewrite Hk, ?Nat.eqb_refl;
    match goal with H : _ && _ = true |- _ =>
      apply andb_true_iff in H; destruct H as [-> ->] end;
    reflexivity.
Qed.

(** Every call of a turn is one [wsHandler] is permitted. *)
Lemma turn_permitted (ws : conn) (l : locals) (i : inbound) :
  forallb (permitted ws) (snd (fst (turn ws l i))) = true.
Proof.
  destruct i as [e | e | m a]; simpl.
  - rewrite Nat.eqb_refl. reflexivity.
  - destruct (e =? "EOF"); simpl; rewrite ?Nat.eqb_refl; reflexivity.
  - destruct (cmd_cases (Cmd m)) as [H | [H | [H | [H | H]]]].
    + rewrite dispatch_register by assumption.
      turn_cases; simpl; rewrite ?Nat.eqb_refl; try reflexivity;
        match goal with H : _ || _ = false |- _ =>
          apply orb_false_iff in H; destruct H as [-> ->] end;
        reflexivity.
    + rewrite dispatch_send by assumption.
      turn_cases; simpl; rewrite ?Nat.eqb_refl; try reflexivity.
      match goal with H : (Msg m =? "") = false |- _ => rewrite H end.
      reflexivity.
    + rewrite dispatch_ancillary by assumption.
      apply ancillary_permitted. assumption.
    + rewrite dispatch_leave by assumption. reflexivity.
    + rewrite dispatch_default by assumption. simpl.
      rewrite Nat.eqb_refl. reflexivity.
Qed.

Lemma loop_permitted (ws : conn) (ins : list inbound) :
  forall l, forallb (permitted ws) (calls (loop ws l ins)) = true.
Proof.
  induction ins as [| i ins IH]; intros l; simpl; [reflexivity |].
  pose proof (turn_permitted ws l i) as Ht.
  destruct (turn ws l i) as [[l' t] [|]]; simpl in *; [| assumption].
  rewrite calls_after, forallb_app, Ht, IH. reflexivity.
Qed.

(** What the counted kinds of calls are in one turn: a turn never closes
    the connection, it counts a connection on the dashboard exactly when
    it registers, and it registers at most once, only with the flag
    unset, setting it. *)
Lemma turn_counts (ws : conn) (l : locals) (i : inbound) :
  let '(l', t, _) := turn ws l i in
  count_calls is_close t = 0 /\
  count_calls is_incrWs t = count_calls is_registration t /\
  (count_calls is_registration t = 0 \/
   count_calls is_registration t = 1 /\
   registered l = false /\ registered l' = true).
Proof.
  destruct i as [e | e | m a]; simpl.
  - auto.
  - destruct (e =? "EOF"); simpl; auto 8.
  - destruct (cmd_cases (Cmd m)) as [H | [H | [H | [H | H]]]].
    + rewrite dispatch_register by assumption.
      turn_cases; cbv [count_calls]; simpl; auto 8.
    + rewrite dispatch_send by assumption.
      turn_cases; cbv [count_calls]; simpl; auto 8.
    + rewrite dispatch_ancillary by assumption. unfold ancillary.
      turn_cases; cbv [count_calls]; simpl; auto 8.
    + rewrite dispatch_leave by assumption. cbv [count_calls]. simpl. auto 8.
    + rewrite dispatch_default by assumption. cbv [count_calls]. simpl. auto 8.
Qed.

Lemma count_calls_app (p : call -> bool) (t t' : trace) :
  count_calls p (t ++ t') = count_calls p t + count_calls p t'.
Proof. unfold count_calls. rewrite List.filter_app, length_app. reflexivity. Qed.

Lemma loop_counts (ws : conn) (ins : list inbound) :
  forall l,
    count_calls is_close (calls (loop ws l ins)) = 0 /\
    count_calls is_incrWs (calls (loop ws l ins)) =
      count_calls is_registration (calls (loop ws l ins)) /\
    count_calls is_registration (calls (loop ws l ins)) <=
      (if registered l then 0 else 1).
Proof.
  induction ins as [| i ins IH]; intros l; simpl.
  - repeat split; [destruct (registered l); cbv [count_calls]; simpl; lia].
  - pose proof (turn_counts ws l i) as Ht.
    destruct (registered l) eqn:Hreg.
    + destruct (turn_registered ws l i Hreg) as (t & k & Hturn & _).
      rewrite Hturn in *. destruct Ht as (Hc & Hi & Hr).
      assert (count_calls is_registration t = 0) as Hr0
        by (destruct Hr as [? | (_ & ? & _)]; congruence).
      destruct k; simpl; [| lia].
      rewrite calls_after, !count_calls_app.
      destruct (IH l) as (IHc & IHi & IHr). rewrite Hreg in IHr. lia.
    + destruct (turn ws l i) as [[l' t] k].
      destruct Ht as (Hc & Hi & Hr).
      destruct k; simpl;
        [| destruct Hr as [? | (? & _)]; lia].
      rewrite calls_after, !count_calls_app.
      destruct (IH l') as (IHc & IHi & IHr).
      destruct Hr as [Hr | (Hr & _ & Hreg')].
      * destruct (registered l'); lia.
      * rewrite Hreg' in IHr. lia.
Qed.

(** ** Registration *)

(** X1.  On a connection that has not registered, a register command with
    both identifiers that the room table accepts, and for which
    [registered_clients] then holds a record, brings the connection into
    the [Registered] state for these identifiers, with that record as
    [thisClient]; the turn calls [register] and [incrWs] and the loop goes
    on. *)
Theorem register_accepted (ws : conn) (ins : list inbound) (l : locals)
    (t : trace) (m : wsClientMsg) (a : answers) (cl : client) :
  loop ws initial ins = Waiting l t ->
  registered l = false ->
  Cmd m = "register" ->
  RoomID m <> "" ->
  ClientID m <> "" ->
  register_result a = None ->
  registered_clients a !! ClientID m = Some cl ->
  exists l',
    loop ws initial (ins ++ [Received m a]) =
      Waiting l' (t ++ [Register (RoomID m) (ClientID m) ws None; IncrWs]) /\
    Registered l' (RoomID m) (ClientID m) /\
    thisClient l' = Some cl.
Proof.
  intros Hloop Hreg Hcmd Hr Hc Hres Hdir.
  pose proof (unregistered_is_initial ws ins) as Hinit.
  rewrite Hloop in Hinit. simpl in Hinit. destruct (Hinit Hreg) as [-> _].
  rewrite (loop_app ws ins _ _ _ _ Hloop). simpl.
  rewrite dispatch_register by assumption. simpl.
  apply String.eqb_neq in Hr, Hc. rewrite Hr, Hc, Hres, Hdir. simpl.
  eexists. split; [reflexivity |].
  unfold Registered. simpl. repeat split. exists cl. reflexivity.
Qed.

Lemma register_accepted_witness :
  exists l',
    loop 7 initial ([] ++ [register_a]) =
      Waiting l' ([] ++ [Register "r" "a" 7 None; IncrWs]) /\
    Registered l' "r" "a" /\
    thisClient l' = Some alice.
Proof.
  apply (register_accepted 7 [] initial []
           {| Cmd := "register"; RoomID := "r"; ClientID := "a";
              Msg := ""; To := "" |} accepting alice
           eq_refl eq_refl eq_refl ltac:(discriminate) ltac:(discriminate)
           eq_refl).
  vm_compute. reflexivity.
Defined.

(** X2.  When the room table refuses the registration, its error is
    reported and counted, the handler closes the connection and returns;
    nothing was deferred, so [deregister] is not called, and what arrives
    afterwards is not looked at. *)
Theorem register_refused_is_fatal (ws : conn) (ins rest : list inbound)
    (l : locals) (t : trace) (m : wsClientMsg) (a : answers) (e : string) :
  loop ws initial ins = Waiting l t ->
  registered l = false ->
  Cmd m = "register" ->
  RoomID m <> "" ->
  ClientID m <> "" ->
  register_result a = Some e ->
  wsHandler ws (ins ++ Received m a :: rest) =
    Some (t ++ [Register (RoomID m) (ClientID m) ws (Some e);
                SendServerErr ws e; OnWsErr e; WsClose ws]).
Proof.
  intros Hloop Hreg Hcmd Hr Hc Hres.
  pose proof (unregistered_is_initial ws ins) as Hinit.
  rewrite Hloop in Hinit. simpl in Hinit. destruct (Hinit Hreg) as [-> _].
  assert (Hd : turn ws initial (Received m a) =
                 (initial,
                  Register (RoomID m) (ClientID m) ws (Some e) :: wsError e ws,
                  LeaveLoop)).
  { simpl. rewrite dispatch_register by assumption. simpl.
    apply String.eqb_neq in Hr, Hc. rewrite Hr, Hc, Hres. reflexivity. }
  rewrite (wsHandler_exit ws ins rest _ _ _ _ _ Hloop Hd). reflexivity.
Qed.

Lemma register_refused_is_fatal_witness :
  wsHandler 7
    ([] ++ Received {| Cmd := "register"; RoomID := "r"; ClientID := "a";
                       Msg := ""; To := "" |}
             {| register_result := Some "room is full";
                registered_clients := ∅;
                send_result := None; sendByID_result := None |}
        :: [register_a]) =
    Some ([] ++ [Register "r" "a" 7 (Some "room is full");
                 SendServerErr 7 "room is full"; OnWsErr "room is full";
                 WsClose 7]).
Proof.
  apply (register_refused_is_fatal 7 [] [register_a] initial []
           {| Cmd := "register"; RoomID := "r"; ClientID := "a";
              Msg := ""; To := "" |}
           {| register_result := Some "room is full";
              registered_clients := ∅;
              send_result := None; sendByID_result := None |}
           "room is full"
           eq_refl eq_refl eq_refl ltac:(discriminate) ltac:(discriminate)
           eq_refl).
Defined.

(** X3.  When [registered_clients] holds no record for the client right
    after a successful [register], the connection is registered all the
    same (flag set, [deregister] deferred) but holds no client record, and
    from then on every send, video_chat, audio_chat and chat command is
    dropped without any call, a send without payload included. *)
Theorem registered_without_record_drops_commands (ws : conn) (l : locals)
    (m : wsClientMsg) (a : answers) :
  registered l = false ->
  Cmd m = "register" ->
  RoomID m <> "" ->
  ClientID m <> "" ->
  register_result a = None ->
  registered_clients a !! ClientID m = None ->
  exists l',
    dispatch ws l m a =
      (l', [Register (RoomID m) (ClientID m) ws None; IncrWs], NextTurn) /\
    registered l' = true /\
    deferred l' = Deregister (RoomID m) (ClientID m) :: deferred l /\
    forall m' a',
      Cmd m' = "send" \/ is_ancillary (Cmd m') = true ->
      dispatch ws l' m' a' = (l', [], NextTurn).
Proof.
  intros Hreg Hcmd Hr Hc Hres Hdir.
  rewrite dispatch_register by assumption.
  apply String.eqb_neq in Hr, Hc. rewrite Hreg, Hr, Hc, Hres, Hdir. simpl.
  eexists. split; [reflexivity |]. simpl. repeat split.
  intros m' a' [H | H].
  - rewrite dispatch_send by assumption. reflexivity.
  - rewrite dispatch_ancillary by assumption. reflexivity.
Qed.

Lemma registered_without_record_drops_commands_witness :
  exists l',
    dispatch 7 initial
      {| Cmd := "register"; RoomID := "r"; ClientID := "b";
         Msg := ""; To := "" |} accepting =
      (l', [Register "r" "b" 7 None; IncrWs], NextTurn) /\
    registered l' = true /\
    deferred l' = Deregister "r" "b" :: deferred initial /\
    forall m' a',
      Cmd m' = "send" \/ is_ancillary (Cmd m') = true ->
      dispatch 7 l' m' a' = (l', [], NextTurn).
Proof.
  apply (registered_without_record_drops_commands 7 initial
           {| Cmd := "register"; RoomID := "r"; ClientID := "b";
              Msg := ""; To := "" |} accepting
           eq_refl eq_refl ltac:(discriminate) ltac:(discriminate) eq_refl).
  vm_compute. reflexivity.
Defined.

(** X4.  A connection registers at most once: whatever arrives, the
    handler gets at most one successful [register], and it calls
    [incrWs] exactly as often. *)
Theorem at_most_one_registration (ws : conn) (ins : list inbound) :
  count_calls is_registration (calls (loop ws initial ins)) <= 1 /\
  count_calls is_incrWs (calls (loop ws initial ins)) =
    count_calls is_registration (calls (loop ws initial ins)).
Proof.
  destruct (loop_counts ws ins initial) as (_ & Hi & Hr). simpl in Hr.
  split; assumption.
Qed.

(** ** Returning *)

(** X5.  When the handler returns it has closed the connection exactly
    once, and the close is its last call or is followed only by the
    deferred [deregister]. *)
Theorem wsHandler_closes_once (ws : conn) (ins : list inbound) (t : trace) :
  wsHandler ws ins = Some t ->
  count_calls is_close t = 1 /\
  exists body,
    count_calls is_close body = 0 /\
    (t = body ++ [WsClose ws] \/
     exists r c, t = body ++ [WsClose ws; Deregister r c]).
Proof.
  unfold wsHandler. intros Hret.
  pose proof (loop_tracked ws ins) as Htr.
  destruct (loop_counts ws ins initial) as (Hc & _).
  destruct (loop ws initial ins) as [l t1 | l t1]; [| discriminate].
  injection Hret as <-. simpl in *.
  destruct Htr as [[-> _] | (_ & Hdef & _)].
  - simpl. split.
    + rewrite count_calls_app, Hc. reflexivity.
    + exists t1. auto.
  - rewrite Hdef. split.
    + rewrite count_calls_app, Hc. reflexivity.
    + exists t1. split; [assumption |]. right. eauto.
Qed.

Lemma wsHandler_closes_once_witness :
  count_calls is_close
    [Register "r" "a" 7 None; IncrWs; WsClose 7; Deregister "r" "a"] = 1 /\
  exists body,
    count_calls is_close body = 0 /\
    ([Register "r" "a" 7 None; IncrWs; WsClose 7; Deregister "r" "a"] =
       body ++ [WsClose 7] \/
     exists r c,
       [Register "r" "a" 7 None; IncrWs; WsClose 7; Deregister "r" "a"] =
         body ++ [WsClose 7; Deregister r c]).
Proof.
  apply (wsHandler_closes_once 7 [register_a; ReceiveFails "EOF"]).
  vm_compute. reflexivity.
Defined.



(** X7.  How a failing read ends the handler, on a connection whose loop
    is running: when the peer has closed the connection ([Receive] fails
    with EOF) nothing is reported or counted; any other failure of
    [Receive], and any failure of [SetReadDeadline], is reported to the
    connection and counted, under the prefix that names the call.  In
    each case the connection is then closed and the deferred call run. *)
Theorem read_failure_ends_handler (ws : conn) (ins rest : list inbound)
    (l : locals) (t : trace) (e : string) :
  loop ws initial ins = Waiting l t ->
  wsHandler ws (ins ++ ReceiveFails "EOF" :: rest) =
    Some (t ++ WsClose ws :: deferred l) /\
  (e <> "EOF" ->
   wsHandler ws (ins ++ ReceiveFails e :: rest) =
     Some (t ++ [SendServerErr ws ("websocket.JSON.Receive error: " ++ e);
                 OnWsErr ("websocket.JSON.Receive error: " ++ e)]
             ++ WsClose ws :: deferred l)) /\
  wsHandler ws (ins ++ DeadlineFails e :: rest) =
    Some (t ++ [SendServerErr ws ("ws.SetReadDeadline error: " ++ e);
                OnWsErr ("ws.SetReadDeadline error: " ++ e)]
            ++ WsClose ws :: deferred l).
Proof.
  intros Hloop. repeat split.
  - apply (wsHandler_exit ws ins rest (ReceiveFails "EOF") l l t [] Hloop).
    reflexivity.
  - intros He. apply String.eqb_neq in He.
    apply (wsHandler_exit ws ins rest (ReceiveFails e) l l t _ Hloop).
    simpl. rewrite He. reflexivity.
  - apply (wsHandler_exit ws ins rest (DeadlineFails e) l l t _ Hloop).
    reflexivity.
Qed.

Lemma read_failure_ends_handler_witness :
  wsHandler 7 ([register_a] ++ ReceiveFails "EOF" :: []) =
    Some ([Register "r" "a" 7 None; IncrWs] ++
          WsClose 7 :: deferred alice_registered).
Proof.
  apply (proj1 (read_failure_ends_handler 7 [register_a] [] alice_registered
                  [Register "r" "a" 7 None; IncrWs] "timeout"
                  alice_registers)).
Defined.

(** ** What the handler calls *)






Lemma permitted_in (ws : conn) (l : locals) (ins : list inbound) (k : call) :
  In k (calls (loop ws l ins)) -> permitted ws k = true.
Proof.
  intros Hin. pose proof (loop_permitted ws ins l) as H.
  rewrite forallb_forall in H. apply H. assumption.
Qed.

(** X9.  The handler checks what it passes on: [roomTable.register] is
    only called for this connection and with both identifiers non-empty,
    [roomTable.send] only with the kind send and a non-empty message, and
    [sendByID] only with one of the three ancillary kinds, a non-empty
    target and a non-empty message. *)
Theorem room_table_calls_validated (ws : conn) (l : locals)
    (ins : list inbound) :
  (forall r c w res,
      In (Register r c w res) (calls (loop ws l ins)) ->
      r <> "" /\ c <> "" /\ w = ws) /\
  (forall r c kind msg res,
      In (Send r c kind msg res) (calls (loop ws l ins)) ->
      kind = "send" /\ msg <> "") /\
  (forall from to kind msg res,
      In (SendByID from to kind msg res) (calls (loop ws l ins)) ->
      (kind = "video_chat" \/ kind = "audio_chat" \/ kind = "chat") /\
      to <> "" /\ msg <> "").
Proof.
  repeat split; intros; apply permitted_in in H; simpl in H;
    repeat match goal with
           | H : _ && _ = true |- _ => apply andb_true_iff in H; destruct H
           | H : negb _ = true |- _ => apply negb_true_iff in H
           end;
    try (apply String.eqb_neq; assumption);
    try (apply String.eqb_eq; assumption);
    try (apply Nat.eqb_eq; assumption);
    try (apply is_ancillary_cases; assumption).
Qed.

Lemma turn_counted_reported (ws : conn) (l : locals) (i : inbound)
    (msg : string) :
  In (OnWsErr msg) (snd (fst (turn ws l i))) ->
  In (SendServerErr ws msg) (snd (fst (turn ws l i))).
Proof.
  destruct i as [e | e | m a]; simpl.
  - intros [H | [H | []]]; [discriminate |]. injection H as <-. auto.
  - destruct (e =? "EOF"); simpl; [intros [] |].
    intros [H | [H | []]]; [discriminate |]. injection H as <-. auto.
  - unfold dispatch, ancillary, wsError. turn_cases; simpl;
      intros H; repeat destruct H as [H | H]; try discriminate;
      try contradiction; injection H as <-; auto.
Qed.

Lemma loop_counted_reported (ws : conn) (ins : list inbound) (msg : string) :
  forall l,
    In (OnWsErr msg) (calls (loop ws l ins)) ->
    In (SendServerErr ws msg) (calls (loop ws l ins)).
Proof.
  induction ins as [| i ins IH]; intros l; simpl; [intros [] |].
  pose proof (turn_counted_reported ws l i msg) as Ht.
  destruct (turn ws l i) as [[l' t] [|]]; simpl in *; [| assumption].
  rewrite calls_after. intros Hin. apply in_app_or in Hin. apply in_or_app.
  destruct Hin as [Hin | Hin]; [left | right]; auto.
Qed.

(** X10.  The handler stays on its own connection: every server error it
    sends goes to this connection, it never calls [remove] or
    [removeRoom], and every error it counts on the dashboard has been
    sent to the connection. *)
Theorem wsHandler_stays_on_its_connection (ws : conn) (l : locals)
    (ins : list inbound) :
  (forall w msg,
      In (SendServerErr w msg) (calls (loop ws l ins)) -> w = ws) /\
  (forall r c, ~ In (Remove r c) (calls (loop ws l ins))) /\
  (forall r, ~ In (RemoveRoom r) (calls (loop ws l ins))) /\
  (forall msg,
      In (OnWsErr msg) (calls (loop ws l ins)) ->
      In (SendServerErr ws msg) (calls (loop ws l ins))).
Proof.
  repeat split.
  - intros w msg H. apply permitted_in in H. apply Nat.eqb_eq. exact H.
  - intros r c H. apply permitted_in in H. discriminate.
  - intros r H. apply permitted_in in H. discriminate.
  - intros msg. apply loop_counted_reported.
Qed.

(** ** What the handler does not look at *)

Lemma turn_same_but_ids (ws : conn) (l : locals) (i i' : inbound) :
  registered l = true ->
  same_but_ids i i' ->
  turn ws l i = turn ws l i'.
Proof.
  intros Hreg.
  destruct i as [e | e | m a], i' as [e' | e' | m' a']; simpl;
    try contradiction; try (intros ->; reflexivity).
  intros (Hcmd & Hmsg & Hto & <-).
  unfold dispatch, ancillary.
  rewrite Hreg, <- Hcmd, <- Hmsg, <- Hto. reflexivity.
Qed.

(** X11.  Once the flag is set, the room and client identifiers that the
    messages carry are never looked at: two sequences of inbound items
    that differ only in these two fields make the loop do the same
    calls. *)
Theorem later_identifiers_ignored (ws : conn) (l : locals)
    (ins ins' : list inbound) :
  registered l = true ->
  Forall2 same_but_ids ins ins' ->
  loop ws l ins = loop ws l ins'.
Proof.
  intros Hreg Hsame. induction Hsame as [| i i' ins ins' Hi _ IH]; simpl.
  - reflexivity.
  - rewrite <- (turn_same_but_ids ws l i i' Hreg Hi).
    destruct (turn_registered ws l i Hreg) as (t & k & -> & _).
    rewrite IH. reflexivity.
Qed.

Lemma later_identifiers_ignored_witness :
  loop 7 alice_registered [Received (send_msg "hello") accepting] =
  loop 7 alice_registered
    [Received {| Cmd := "send"; RoomID := "q"; ClientID := "b";
                 Msg := "hello"; To := "" |} accepting].
Proof.
  apply (later_identifiers_ignored 7 alice_registered); [reflexivity |].
  repeat constructor.
Defined.

(** X12.  The handler holds a client record only with the flag set, so
    the test of line 235 never succeeds: no send command on any
    connection is answered through the branch that reports an
    unregistered client and leaves the loop. *)
Theorem not_registered_branch_unreachable (ws : conn) (ins : list inbound)
    (m : wsClientMsg) (a : answers) :
  Cmd m = "send" ->
  let l := locals_of (loop ws initial ins) in
  (is_Some (thisClient l) -> registered l = true) /\
  dispatch ws l m a <> (l, wsError "Client not registered" ws, LeaveLoop).
Proof.
  intros Hcmd l.
  assert (Hinv : is_Some (thisClient l) -> registered l = true).
  { subst l. destruct (loop_tracked ws ins) as [[-> _] | (Hreg & _)].
    - intros [x Hx]. discriminate.
    - auto. }
  split; [exact Hinv |].
  rewrite dispatch_send by assumption.
  destruct (thisClient l) as [this |] eqn:Hthis; [| discriminate].
  rewrite Hinv by eauto. simpl.
  destruct (Msg m =? ""); discriminate.
Qed.

Lemma not_registered_branch_unreachable_witness :
  let l := locals_of (loop 7 initial [register_a]) in
  (is_Some (thisClient l) -> registered l = true) /\
  dispatch 7 l (send_msg "hello") accepting <>
    (l, wsError "Client not registered" 7, LeaveLoop).
Proof.
  apply (not_registered_branch_unreachable 7 [register_a] (send_msg "hello")
           accepting eq_refl).
Defined.

(** * Further properties of the HTTP handlers *)

(** ** Paths and their pieces *)

Lemma Split_nonempty (s : string) : Split s slash <> [].
Proof.
  intros H. pose proof (Split_length s) as Hl. rewrite H in Hl. discriminate.
Qed.

(** Splitting loses nothing: the pieces joined by slashes are the path. *)
Lemma Split_join (s : string) : join_path (Split s slash) = s.
Proof.
  induction s as [| ch s IH]; simpl; [reflexivity |].
  pose proof (Split_nonempty s) as Hne.
  destruct (Ascii.eqb_spec ch slash) as [-> | _].
  - destruct (Split s slash) as [| p ps]; [contradiction |].
    change (join_path ("" :: p :: ps))
      with ("" ++ "/" ++ join_path (p :: ps))%string.
    rewrite IH. reflexivity.
  - destruct (Split s slash) as [| p ps]; [contradiction |].
    rewrite <- IH. destruct ps; reflexivity.
Qed.

Lemma Split_pieces (s : string) :
  Forall (fun p => has_slash p = false) (Split s slash).
Proof.
  induction s as [| ch s IH]; simpl; [repeat constructor |].
  destruct (Ascii.eqb ch slash) eqn:E.
  - constructor; [reflexivity | assumption].
  - destruct (Split s slash) as [| p ps]; [repeat constructor; simpl; rewrite E; reflexivity |].
    apply Forall_cons_1 in IH. destruct IH as [Hp Hps].
    constructor; [simpl; rewrite E, Hp; reflexivity | assumption].
Qed.

Lemma Split_three (s p0 r c : string) :
  Split s slash = [p0; r; c] ->
  s = (p0 ++ "/" ++ r ++ "/" ++ c)%string /\
  has_slash p0 = false /\ has_slash r = false /\ has_slash c = false.
Proof.
  intros H. pose proof (Split_join s) as Hj. pose proof (Split_pieces s) as Hp.
  rewrite H in Hj, Hp. simpl in Hj.
  apply Forall_cons_1 in Hp. destruct Hp as [H0 Hp].
  apply Forall_cons_1 in Hp. destruct Hp as [H1 Hp].
  apply Forall_cons_1 in Hp. destruct Hp as [H2 _].
  auto.
Qed.

Lemma Split_not_three (s : string) (A : Type) (f : string -> string -> A)
    (d : A) :
  count_slash s <> 2 ->
  match Split s slash with
  | [_; r; c] => f r c
  | _ => d
  end = d.
Proof.
  intros H. pose proof (Split_length s) as Hl.
  destruct (Split s slash) as [| p0 [| p1 [| p2 [| p3 ps]]]]; try reflexivity.
  simpl in Hl. congruence.
Qed.

Lemma Split_is_three (s : string) :
  count_slash s = 2 -> exists p0 r c, Split s slash = [p0; r; c].
Proof.
  intros H. pose proof (Split_length s) as Hl. rewrite H in Hl.
  destruct (Split s slash) as [| p0 [| p1 [| p2 [| p3 ps]]]]; try discriminate.
  eauto.
Qed.

(** ** httpHandler *)

(** X13.  Whatever the method, a path that does not have exactly two
    slashes is answered with the error 500 naming the path, which is
    counted; the room table is not touched and OK is not written. *)
Theorem invalid_path_rejected (r : request) (a : answers) :
  count_slash (Path r) <> 2 ->
  httpHandler r a =
    cors_headers ++
    [HttpError ("Invalid path: " ++ Path r) 500;
     OnHttpErr ("Invalid path: " ++ Path r)].
Proof.
  intros H. unfold httpHandler.
  rewrite Split_not_three by assumption. reflexivity.
Qed.

Lemma invalid_path_rejected_witness :
  httpHandler {| Method := "DELETE"; Path := "/r"; Body := ReadOk "" |}
    accepting =
    cors_headers ++
    [HttpError "Invalid path: /r" 500; OnHttpErr "Invalid path: /r"].
Proof.
  apply (invalid_path_rejected
           {| Method := "DELETE"; Path := "/r"; Body := ReadOk "" |} accepting).
  vm_compute. discriminate.
Defined.

(** X14.  A POST for room [r] and client [c]: a body that cannot be read
    and an empty body are answered with an error without calling the room
    table; otherwise the body is passed to [roomTable.send] under the kind
    POST.  When [send] fails its error is the reply and OK is not written;
    when it succeeds the reply is the JSON success object followed by
    OK. *)
Theorem post_relays_body (r c : string) (a : answers) :
  has_slash r = false ->
  has_slash c = false ->
  (forall e,
      httpHandler (post_request r c (ReadErr e)) a =
        cors_headers ++ httpError ("Failed to read request body: " ++ e)) /\
  httpHandler (post_request r c (ReadOk "")) a =
    cors_headers ++ httpError "Empty request body" /\
  (forall m e,
      m <> "" -> send_result a = Some e ->
      httpHandler (post_request r c (ReadOk m)) a =
        cors_headers ++
        Send r c "POST" m (Some e)
        :: httpError ("Failed to send the message: " ++ e)) /\
  (forall m,
      m <> "" -> send_result a = None ->
      httpHandler (post_request r c (ReadOk m)) a =
        cors_headers ++
        [Send r c "POST" m None;
         WriteString ("{" ++ DQ ++ "result" ++ DQ ++ ":" ++ DQ ++ "SUCCESS"
                          ++ DQ ++ "}");
         WriteString OK]).
Proof.
  intros Hr Hc. unfold httpHandler, post_request. simpl Path. simpl Method.
  simpl Body. rewrite (Split_client_path r c Hr Hc).
  change ("POST" =? "POST") with true. cbv iota.
  repeat split.
  - intros m e Hm Hres. apply String.eqb_neq in Hm. rewrite Hm, Hres.
    reflexivity.
  - intros m Hm Hres. apply String.eqb_neq in Hm. rewrite Hm, Hres.
    reflexivity.
Qed.

Lemma post_relays_body_witness :
  httpHandler (post_request "r" "a" (ReadOk "")) accepting =
    cors_headers ++ httpError "Empty request body".
Proof.
  apply (proj1 (proj2 (post_relays_body "r" "a" accepting eq_refl eq_refl))).
Defined.

(** X15.  A request with any method other than POST and DELETE gets the
    two headers and nothing else: nothing is written, not even for a
    well-formed path, and the room table is not touched. *)
Theorem other_methods_do_nothing (r : request) (a : answers) :
  Method r <> "POST" ->
  Method r <> "DELETE" ->
  count_slash (Path r) = 2 ->
  httpHandler r a = cors_headers.
Proof.
  intros Hp Hd Hpath. unfold httpHandler.
  destruct (Split_is_three _ Hpath) as (p0 & rid & cid & ->).
  apply String.eqb_neq in Hp, Hd. rewrite Hp, Hd. reflexivity.
Qed.

Lemma other_methods_do_nothing_witness :
  httpHandler {| Method := "GET"; Path := "/r/a"; Body := ReadOk "" |}
    accepting = cors_headers.
Proof.
  apply (other_methods_do_nothing
           {| Method := "GET"; Path := "/r/a"; Body := ReadOk "" |} accepting);
    [discriminate | discriminate | reflexivity].
Defined.

(** Membership in a trace that is known call by call. *)
Ltac in_trace H :=
  simpl in H; repeat (destruct H as [H | H]; [try discriminate |]);
  try contradiction.

Ltac handler_cases :=
  repeat match goal with
         | |- context [if ?b then _ else _] => destruct b eqn:?
         | |- context [match ?x with Some _ => _ | None => _ end] =>
             destruct x eqn:?
         | |- context [match ?x with ReadOk _ => _ | ReadErr _ => _ end] =>
             destruct x eqn:?
         end.

(** X16.  Whatever the request, [httpHandler] replies with at most one
    error; an error reply has status 500, is counted on the dashboard
    under the same message, and is never followed or preceded by OK. *)
Theorem http_error_excludes_ok (r : request) (a : answers) :
  count_calls is_http_error (httpHandler r a) <= 1 /\
  forall msg st,
    In (HttpError msg st) (httpHandler r a) ->
    st = 500 /\
    In (OnHttpErr msg) (httpHandler r a) /\
    ~ In (WriteString OK) (httpHandler r a).
Proof.
  unfold httpHandler, httpError, httpReturnSuccess, StatusInternalServerError.
  destruct (Split (Path r) slash) as [| p0 [| p1 [| p2 [| p3 ps]]]];
    handler_cases;
    (split; [cbv [count_calls]; simpl; lia |]);
    intros msg st H; in_trace H;
    try (injection H as <- <-; repeat split; simpl; auto 8;
         intros H'; in_trace H').
Qed.

(** X17.  [httpHandler] only acts on what the path names: every call it
    makes on the room table is about a room [rid] and a client [cid] (ALL
    for [removeRoom]) that contain no slash and that are the last two
    pieces of the path. *)
Theorem httpHandler_acts_on_path (r : request) (a : answers) (k : call)
    (rid cid : string) :
  In k (httpHandler r a) ->
  about k = Some (rid, cid) ->
  exists p0,
    Path r = (p0 ++ "/" ++ rid ++ "/" ++ cid)%string /\
    has_slash p0 = false /\ has_slash rid = false /\ has_slash cid = false.
Proof.
  unfold httpHandler, httpError, httpReturnSuccess.
  destruct (Split (Path r) slash) as [| p0 [| p1 [| p2 [| p3 ps]]]] eqn:Hs;
    try (intros H; in_trace H; subst k; discriminate).
  apply Split_three in Hs. destruct Hs as (Hpath & H0 & H1 & H2).
  handler_cases; intros H Hab; in_trace H; subst k; try discriminate;
    simpl in Hab; injection Hab as <- <-; exists p0; auto.
  match goal with H : (p2 =? "ALL") = true |- _ =>
    apply String.eqb_eq in H; subst p2 end.
  auto.
Qed.

Lemma httpHandler_acts_on_path_witness :
  exists p0,
    Path (delete_request "r" "a" (ReadOk "")) = (p0 ++ "/" ++ "r" ++ "/" ++ "a")%string /\
    has_slash p0 = false /\ has_slash "r" = false /\ has_slash "a" = false.
Proof.
  apply (httpHandler_acts_on_path (delete_request "r" "a" (ReadOk ""))
           accepting (Remove "r" "a") "r" "a").
  - vm_compute. auto 8.
  - reflexivity.
Defined.

(** X18.  The DELETE of a single client does what [sendDeleteError] does
    with the message YOU_ARE_OFFLINE, then removes the client: the
    message goes to the connection stored for the client in
    [registered_clients], not to the requester, and is skipped when there
    is no record. *)
Theorem delete_notifies_as_sendDeleteError (r c : string) (body : read_result)
    (a : answers) :
  has_slash r = false ->
  has_slash c = false ->
  c <> "ALL" ->
  httpHandler (delete_request r c body) a =
    cors_headers ++ sendDeleteError "YOU_ARE_OFFLINE" c a
      ++ [Remove r c; WriteString OK] /\
  (forall w msg,
      In (SendServerErr w msg) (httpHandler (delete_request r c body) a) ->
      exists c_, registered_clients a !! c = Some c_ /\ w = rwc c_ /\
                 msg = "YOU_ARE_OFFLINE").
Proof.
  intros Hr Hc Hne. unfold httpHandler, delete_request, sendDeleteError.
  simpl Path. simpl Method. rewrite (Split_client_path r c Hr Hc).
  change ("DELETE" =? "POST") with false.
  change ("DELETE" =? "DELETE") with true. cbv iota.
  apply String.eqb_neq in Hne. rewrite Hne.
  destruct (registered_clients a !! c) as [c_ |]; (split; [reflexivity |]);
    intros w msg H; in_trace H.
  injection H as <- <-. eauto.
Qed.

Lemma delete_notifies_as_sendDeleteError_witness :
  httpHandler (delete_request "r" "b" (ReadOk "")) accepting =
    cors_headers ++ sendDeleteError "YOU_ARE_OFFLINE" "b" accepting
      ++ [Remove "r" "b"; WriteString OK].
Proof.
  apply (proj1 (delete_notifies_as_sendDeleteError "r" "b" (ReadOk "")
                  accepting eq_refl eq_refl ltac:(discriminate))).
Defined.

(** ** httpDeregister *)

(** X19.  [httpDeregister] removes the room named by a path of one piece
    after the leading slash, whatever the method, and replies OK; a path
    with any other number of slashes is answered with the error 500
    naming the path, and no room is removed. *)
Theorem httpDeregister_removes_room (r : request) :
  (forall rid,
      has_slash rid = false ->
      Path r = String slash rid ->
      httpDeregister r =
        [HeaderAdd "Access-Control-Allow-Origin" "*";
         RemoveRoom rid; WriteString OK]) /\
  (count_slash (Path r) <> 1 ->
   httpDeregister r =
     [HeaderAdd "Access-Control-Allow-Origin" "*";
      HttpError ("Invalid path: " ++ Path r) 500;
      OnHttpErr ("Invalid path: " ++ Path r)]).
Proof.
  unfold httpDeregister. split.
  - intros rid Hrid ->.
    change (String slash rid) with ("" ++ String slash rid)%string.
    rewrite (Split_segment "" rid eq_refl), (Split_no_slash rid Hrid).
    reflexivity.
  - intros H. pose proof (Split_length (Path r)) as Hl.
    destruct (Split (Path r) slash) as [| p0 [| p1 [| p2 ps]]];
      try reflexivity.
    simpl in Hl. congruence.
Qed.

Lemma httpDeregister_removes_room_witness :
  httpDeregister {| Method := "GET"; Path := "/r"; Body := ReadOk "" |} =
    [HeaderAdd "Access-Control-Allow-Origin" "*";
     RemoveRoom "r"; WriteString OK].
Proof.
  apply (proj1 (httpDeregister_removes_room
                  {| Method := "GET"; Path := "/r"; Body := ReadOk "" |})
           "r" eq_refl eq_refl).
Defined.

(** * Sample runs of the general statements *)

Lemma room_table_calls_validated_witness :
  "send" = "send" /\ "hello" <> "".
Proof.
  apply (proj1 (proj2 (room_table_calls_validated 7 alice_registered
                         [Received (send_msg "hello") accepting]))
           "r" "a" "send" "hello" None).
  simpl. auto.
Defined.

Lemma wsHandler_stays_on_its_connection_witness :
  In (SendServerErr 7 "Invalid message: unexpected 'cmd'")
     (calls (loop 7 initial [Received (cmd_only "bogus") accepting])).
Proof.
  apply (proj2 (proj2 (proj2 (wsHandler_stays_on_its_connection 7 initial
                  [Received (cmd_only "bogus") accepting])))
           "Invalid message: unexpected 'cmd'").
  simpl. auto.
Defined.

Lemma http_error_excludes_ok_witness :
  500 = 500 /\
  In (OnHttpErr "Empty request body")
     (httpHandler (post_request "r" "a" (ReadOk "")) accepting) /\
  ~ In (WriteString OK)
       (httpHandler (post_request "r" "a" (ReadOk "")) accepting).
Proof.
  apply (proj2 (http_error_excludes_ok (post_request "r" "a" (ReadOk ""))
                  accepting) "Empty request body" 500).
  vm_compute. auto.
Defined.

Lemma loop_states_witness :
  let l := locals_of (loop 7 initial [register_a]) in
  l = initial \/ Registered l (rid l) (cid l).
Proof.
  apply (loop_states 7 [register_a]).
  repeat constructor. intros _. exists alice. vm_compute. reflexivity.
Defined.

Lemma unrecognized_loop_witness :
  loop 7 initial [Received (cmd_only "bogus") accepting; register_a] =
    after (wsError "Invalid message: unexpected 'cmd'" 7)
      (loop 7 initial [register_a]).
Proof.
  apply (unrecognized_loop 7 initial (cmd_only "bogus") accepting [register_a]).
  reflexivity.
Defined.

Lemma send_result_dropped_witness :
  dispatch 7 alice_registered (send_msg "hello") send_failing =
    (alice_registered,
     [Send "r" "a" "send" (Msg (send_msg "hello")) (send_result send_failing)],
     NextTurn).
Proof.
  apply (send_result_dropped 7 alice_registered "r" "a" (send_msg "hello")
           send_failing alice_Registered eq_refl).
  discriminate.
Defined.
